(** * liblightorama: the encoding layer of [src/io.c]

    A shallow embedding of the Light-O-Rama message writers.  Every C
    function [lor_write_*] stores bytes through a caller-supplied
    [unsigned char *] and returns how many it stored; it never loads from
    the buffer and keeps no state of its own.  The embedding threads the
    destination buffer through a small state monad, so that the frame and
    independence properties of the writers are theorems about the code
    and not artefacts of the model. *)

From Stdlib Require Import NArith Lia.
From stdpp Require Import base decidable numbers option list.

Local Open Scope N_scope.
Local Open Scope nat_scope.

(** ** Machine values

    The unsigned C types ([uint8_t], [uint16_t], [unsigned char]) are read
    as [N]; offsets into the buffer and [size_t] counts, which stay
    small here, are [nat]. *)

Definition is_u8 (v : N) : Prop := (v < 256)%N.
Definition is_u16 (v : N) : Prop := (v < 65536)%N.

(** Conversion to [unsigned char] on assignment: reduction modulo 2^8. *)
Definition u8 (v : N) : N := (v mod 256)%N.

(** ** The destination buffer

    [mem] is the caller's region, one [N] below 256 per byte.  [stores]
    records, in program order, the offset of every byte the code has
    assigned; it is the instrument behind the statements about which
    positions a writer touches. *)

Record buffer : Type := Buffer { mem : list N; stores : list nat }.

(** A writer either runs to completion or leaves the region; the C
    standard leaves an out-of-range store undefined, which the model
    renders as [None]. *)
Definition M (A : Type) : Type := buffer → option (A * buffer).

#[export] Instance M_ret : MRet M := λ A x st, Some (x, st).
#[export] Instance M_bind : MBind M := λ A B f m st,
  match m st with
  | Some (x, st') => f x st'
  | None => None
  end.

(** [ptr[n] = v;] *)
Definition poke (ptr n : nat) (v : N) : M unit := λ st,
  if decide (ptr + n < length (mem st))
  then Some ((), Buffer (<[ptr + n := u8 v]> (mem st)) (stores st ++ [ptr + n]))
  else None.

(** ** Channels

    [LORChannel] is the flat C struct: the variant tag, the [bits] of
    type [lor_channel_t] (a [uint16_t]) that hold the id or the mask,
    and the [chain_index], an unsigned byte that the code compares with
    zero. *)

Inductive LORChannelType : Type :=
  | LOR_CHANNEL_ID
  | LOR_CHANNEL_MASK8
  | LOR_CHANNEL_MASK16.

Record LORChannel : Type := Channel {
  type : LORChannelType;
  bits : N;
  chain_index : N
}.

(** The widths the C types and the protocol give the fields: a single id
    and an 8-bit mask fit one byte, a 16-bit mask fits two. *)
Definition valid_channel (channel : LORChannel) : Prop :=
  is_u8 (chain_index channel) ∧
  match type channel with
  | LOR_CHANNEL_ID | LOR_CHANNEL_MASK8 => is_u8 (bits channel)
  | LOR_CHANNEL_MASK16 => is_u16 (bits channel)
  end.

(** ** What [io.c] takes from its headers

    The protocol constants, the selector of the action-byte tag and the
    seconds-to-ticks conversion are declared in [io.h] and [protocol.h];
    the writers use them without looking inside.  [float] stands for the
    C type of that name, whose values the writers only pass along. *)
Class Headers (float : Type) : Type := {
  LOR_UNIT_ID_BROADCAST : N;
  LOR_MAGIC_AND : N;
  LOR_MAGIC_HEARTBEAT : N;
  LOR_MAGIC_CHANNEL_ID_MASK : N;
  LOR_ACTION_CHANNEL_FADE : N;
  LOR_ACTION_CHANNEL_SET_BRIGHTNESS : N;
  lor_get_channel_magic : LORChannel → N;
  lor_duration_of : float → N
}.

(** ** A concrete setting

    Values on which the model can be run.  They stand in for the
    definitions of the headers: byte-sized magic numbers, a tag selector
    by variant, and seconds counted in whole ticks.  No theorem depends
    on them. *)
Module Sample.
Definition LOR_ACTION_CHANNEL_ON : N := 0x01.
Definition channel_magic (channel : LORChannel) : N :=
  match type channel with
  | LOR_CHANNEL_ID => 0x00
  | LOR_CHANNEL_MASK8 => 0x30
  | LOR_CHANNEL_MASK16 => 0x10
  end.
#[export] Instance headers : Headers N := {|
  LOR_UNIT_ID_BROADCAST := 0xFF;
  LOR_MAGIC_AND := 0x81;
  LOR_MAGIC_HEARTBEAT := 0x56;
  LOR_MAGIC_CHANNEL_ID_MASK := 0x80;
  LOR_ACTION_CHANNEL_FADE := 0x04;
  LOR_ACTION_CHANNEL_SET_BRIGHTNESS := 0x03;
  lor_get_channel_magic := channel_magic;
  lor_duration_of := λ seconds, seconds
|}.
Definition blank (size : nat) : buffer := Buffer (replicate size 0%N) [].
Definition chained16 : LORChannel := Channel LOR_CHANNEL_MASK16 0x1234 2.
Definition single7 : LORChannel := Channel LOR_CHANNEL_ID 7 0.
End Sample.

Section Io.

Context {float : Type} `{!Headers float}.

Definition lor_write_heartbeat (ptr : nat) : M nat :=
  poke ptr 0 LOR_UNIT_ID_BROADCAST;;
  poke ptr 1 LOR_MAGIC_AND;;
  poke ptr 2 LOR_MAGIC_HEARTBEAT;;
  mret 3.

Definition lor_write_brightness (brightness : N) (ptr : nat) : M nat :=
  poke ptr 0 brightness;;
  mret 1.

Definition lor_write_brightnessf
    (normal : float) (brightness_curve : float → N) (ptr : nat) : M nat :=
  lor_write_brightness (brightness_curve normal) ptr.

Definition lor_write_duration (duration : N) (ptr : nat) : M nat :=
  let n := 0 in
  poke ptr n (N.shiftr (N.land duration 0xFF00) 8);; let n := n + 1 in
  poke ptr n (N.land duration 0x00FF);; let n := n + 1 in
  mret n.

Definition lor_write_durationf (seconds : float) (ptr : nat) : M nat :=
  lor_write_duration (lor_duration_of seconds) ptr.

Definition lor_write_channel (channel : LORChannel) (ptr : nat) : M nat :=
  let n := 0 in
  n ← (if decide (0 < chain_index channel)%N
       then poke ptr n (chain_index channel);; mret (n + 1)
       else mret n);
  n ← match type channel with
      | LOR_CHANNEL_ID =>
          poke ptr n (N.lor LOR_MAGIC_CHANNEL_ID_MASK (bits channel));;
          mret (n + 1)
      | LOR_CHANNEL_MASK8 =>
          poke ptr n (bits channel);;
          mret (n + 1)
      | LOR_CHANNEL_MASK16 =>
          poke ptr n (N.shiftr (N.land (bits channel) 0xFF00) 8);;
          let n := n + 1 in
          poke ptr n (N.land (bits channel) 0x00FF);;
          mret (n + 1)
      end;
  mret n.

Definition lor_write_channel_action
    (unit action : N) (channel : LORChannel) (ptr : nat) : M nat :=
  let n := 0 in
  poke ptr n unit;; let n := n + 1 in
  poke ptr n (N.lor (lor_get_channel_magic channel) action);;
  let n := n + 1 in
  k ← lor_write_channel channel (ptr + n); let n := n + k in
  mret n.

Definition lor_write_channel_fade
    (unit : N) (channel : LORChannel) (from to duration : N)
    (ptr : nat) : M nat :=
  let n := 0 in
  poke ptr n unit;; let n := n + 1 in
  poke ptr n (N.lor (lor_get_channel_magic channel) LOR_ACTION_CHANNEL_FADE);;
  let n := n + 1 in
  k ← lor_write_brightness from (ptr + n); let n := n + k in
  k ← lor_write_brightness to (ptr + n); let n := n + k in
  k ← lor_write_duration duration (ptr + n); let n := n + k in
  k ← lor_write_channel channel (ptr + n); let n := n + k in
  mret n.

Definition lor_write_channel_fade_with
    (unit foreground_action : N) (channel : LORChannel)
    (from to duration : N) (ptr : nat) : M nat :=
  let n := 0 in
  poke ptr n unit;; let n := n + 1 in
  poke ptr n (N.lor (lor_get_channel_magic channel) foreground_action);;
  let n := n + 1 in
  k ← lor_write_channel channel (ptr + n); let n := n + k in
  poke ptr n LOR_MAGIC_AND;; let n := n + 1 in
  poke ptr n (N.lor (lor_get_channel_magic channel) LOR_ACTION_CHANNEL_FADE);;
  let n := n + 1 in
  k ← lor_write_brightness from (ptr + n); let n := n + k in
  k ← lor_write_brightness to (ptr + n); let n := n + k in
  k ← lor_write_duration duration (ptr + n); let n := n + k in
  mret n.

Definition lor_write_channel_set_brightness
    (unit : N) (channel : LORChannel) (to : N) (ptr : nat) : M nat :=
  let n := 0 in
  poke ptr n unit;; let n := n + 1 in
  poke ptr n
    (N.lor (lor_get_channel_magic channel) LOR_ACTION_CHANNEL_SET_BRIGHTNESS);;
  let n := n + 1 in
  k ← lor_write_brightness to (ptr + n); let n := n + k in
  k ← lor_write_channel channel (ptr + n); let n := n + k in
  mret n.

Definition lor_write_unit_action (unit action : N) (ptr : nat) : M nat :=
  poke ptr 0 unit;;
  poke ptr 1 action;;
  mret 2.

(** *** The entry points, reified

    One constructor per function of [io.c], carrying its arguments, so
    that a statement can range over every write function. *)
Inductive call : Type :=
  | Heartbeat
  | Brightness (brightness : N)
  | Brightnessf (normal : float) (brightness_curve : float → N)
  | Duration (duration : N)
  | Durationf (seconds : float)
  | ChannelRef (channel : LORChannel)
  | ChannelAction (unit action : N) (channel : LORChannel)
  | ChannelFade (unit : N) (channel : LORChannel) (from to duration : N)
  | ChannelFadeWith (unit foreground_action : N) (channel : LORChannel)
      (from to duration : N)
  | ChannelSetBrightness (unit : N) (channel : LORChannel) (to : N)
  | UnitAction (unit action : N).

Definition run (c : call) : nat → M nat :=
  match c with
  | Heartbeat => lor_write_heartbeat
  | Brightness b => lor_write_brightness b
  | Brightnessf x curve => lor_write_brightnessf x curve
  | Duration d => lor_write_duration d
  | Durationf s => lor_write_durationf s
  | ChannelRef ch => lor_write_channel ch
  | ChannelAction u a ch => lor_write_channel_action u a ch
  | ChannelFade u ch f t d => lor_write_channel_fade u ch f t d
  | ChannelFadeWith u a ch f t d => lor_write_channel_fade_with u a ch f t d
  | ChannelSetBrightness u ch t => lor_write_channel_set_brightness u ch t
  | UnitAction u a => lor_write_unit_action u a
  end.

(** The message composers, as opposed to the field writers they are
    built from. *)
Definition composer (c : call) : bool :=
  match c with
  | Heartbeat | UnitAction _ _ | ChannelAction _ _ _
  | ChannelSetBrightness _ _ _ | ChannelFade _ _ _ _ _
  | ChannelFadeWith _ _ _ _ _ _ => true
  | _ => false
  end.

(** *** Observations on a run *)

(** The [n] bytes found at [ptr] afterwards. *)
Definition region (ptr n : nat) (st : buffer) : list N :=
  take n (drop ptr (mem st)).

(** The offsets stored to since [st0]. *)
Definition stored_since (st0 st : buffer) : list nat :=
  drop (length (stores st0)) (stores st).

(** What a caller sees of a call: the count and the bytes it covers. *)
Definition outcome (m : M nat) (ptr : nat) (st : buffer)
    : option (nat * list N) :=
  match m st with
  | Some (n, st') => Some (n, region ptr n st')
  | None => None
  end.

(** *** The byte strings the writers produce

    Pure counterparts of the writers, used to state once and for all
    what each run does to the buffer ([run_writes] below). *)

Definition be16 (v : N) : list N :=
  [u8 (N.shiftr (N.land v 0xFF00) 8); u8 (N.land v 0x00FF)].

Definition channel_bytes (channel : LORChannel) : list N :=
  (if decide (0 < chain_index channel)%N
   then [u8 (chain_index channel)] else []) ++
  match type channel with
  | LOR_CHANNEL_ID => [u8 (N.lor LOR_MAGIC_CHANNEL_ID_MASK (bits channel))]
  | LOR_CHANNEL_MASK8 => [u8 (bits channel)]
  | LOR_CHANNEL_MASK16 => be16 (bits channel)
  end.

Definition action_byte (channel : LORChannel) (action : N) : N :=
  u8 (N.lor (lor_get_channel_magic channel) action).

Definition wire (c : call) : list N :=
  match c with
  | Heartbeat =>
      [u8 LOR_UNIT_ID_BROADCAST; u8 LOR_MAGIC_AND; u8 LOR_MAGIC_HEARTBEAT]
  | Brightness b => [u8 b]
  | Brightnessf x curve => [u8 (curve x)]
  | Duration d => be16 d
  | Durationf s => be16 (lor_duration_of s)
  | ChannelRef ch => channel_bytes ch
  | ChannelAction u a ch => [u8 u; action_byte ch a] ++ channel_bytes ch
  | ChannelFade u ch f t d =>
      [u8 u; action_byte ch LOR_ACTION_CHANNEL_FADE; u8 f; u8 t] ++
      be16 d ++ channel_bytes ch
  | ChannelFadeWith u a ch f t d =>
      [u8 u; action_byte ch a] ++ channel_bytes ch ++
      [u8 LOR_MAGIC_AND; action_byte ch LOR_ACTION_CHANNEL_FADE; u8 f; u8 t] ++
      be16 d
  | ChannelSetBrightness u ch t =>
      [u8 u; action_byte ch LOR_ACTION_CHANNEL_SET_BRIGHTNESS; u8 t] ++
      channel_bytes ch
  | UnitAction u a => [u8 u; u8 a]
  end.

(** [put ptr bs st]: [st] after [bs] has been stored at [ptr], one
    byte after the other. *)
Definition put (ptr : nat) (bs : list N) (st : buffer) : buffer :=
  Buffer (take ptr (mem st) ++ bs ++ drop (ptr + length bs) (mem st))
         (stores st ++ seq ptr (length bs)).

Definition fits (ptr : nat) (bs : list N) (st : buffer) : Prop :=
  bs = [] ∨ ptr + length bs ≤ length (mem st).

#[local] Instance fits_dec ptr bs st : Decision (fits ptr bs st).
Proof. unfold fits. apply _. Defined.

(** [writes m ptr bs r]: on every buffer, [m] stores exactly [bs] at
    [ptr] and returns [r], or has no result when [bs] does not fit. *)
Definition writes {A} (m : M A) (ptr : nat) (bs : list N) (r : A) : Prop :=
  ∀ st, m st = if decide (fits ptr bs st) then Some (r, put ptr bs st)
               else None.

(** ** Bytes and bit operations *)

Lemma u8_land v : u8 v = N.land v 0xFF.
Proof. unfold u8. change 0xFF%N with (N.ones 8). by rewrite N.land_ones. Qed.

Lemma u8_small v : is_u8 v → u8 v = v.
Proof. intros Hv. by apply N.mod_small. Qed.

Lemma u8_is_u8 v : is_u8 (u8 v).
Proof. unfold is_u8, u8. by apply N.mod_lt. Qed.

Lemma u8_lor a b : u8 (N.lor a b) = N.lor (u8 a) (u8 b).
Proof. by rewrite !u8_land, N.land_lor_distr_l. Qed.

Lemma u8_lor_small a b : is_u8 a → is_u8 b → u8 (N.lor a b) = N.lor a b.
Proof. intros Ha Hb. by rewrite u8_lor, !u8_small. Qed.

Lemma high_byte v : N.shiftr (N.land v 0xFF00) 8 = u8 (v / 256).
Proof.
  rewrite N.shiftr_land, u8_land. change (N.shiftr 0xFF00 8) with 0xFF%N.
  by rewrite N.shiftr_div_pow2.
Qed.

Lemma low_byte v : N.land v 0x00FF = u8 v.
Proof. by rewrite u8_land. Qed.

Lemma u8_u8 v : u8 (u8 v) = u8 v.
Proof. apply u8_small, u8_is_u8. Qed.

Lemma high_byte_u16 v : is_u16 v → u8 (v / 256) = (v / 256)%N.
Proof.
  intros Hv. apply u8_small. unfold is_u8, is_u16 in *.
  apply N.Div0.div_lt_upper_bound. lia.
Qed.

Lemma be16_u16 v : is_u16 v → be16 v = [(v / 256)%N; (v mod 256)%N].
Proof.
  intros Hv. unfold be16.
  by rewrite high_byte, low_byte, !u8_u8, high_byte_u16.
Qed.

(** ** Reasoning about writers *)

Lemma put_nil ptr st : put ptr [] st = st.
Proof.
  destruct st as [m s]. unfold put. cbn [mem stores length seq].
  by rewrite Nat.add_0_r, app_nil_l, take_drop, app_nil_r.
Qed.

Lemma put_length ptr bs st :
  ptr + length bs ≤ length (mem st) →
  length (mem (put ptr bs st)) = length (mem st).
Proof.
  intros Hfit. unfold put. cbn [mem].
  rewrite !length_app, length_take, length_drop. lia.
Qed.

Lemma put_app ptr bs1 bs2 st :
  ptr + length bs1 ≤ length (mem st) →
  put (ptr + length bs1) bs2 (put ptr bs1 st) = put ptr (bs1 ++ bs2) st.
Proof.
  intros Hfit. unfold put. cbn [mem stores]. f_equal.
  - rewrite (app_assoc (take ptr (mem st)) bs1).
    rewrite take_app_length' by (rewrite length_app, length_take; lia).
    rewrite drop_app_add' by (rewrite length_app, length_take; lia).
    rewrite drop_drop, length_app, <- !app_assoc.
    by rewrite Nat.add_assoc.
  - by rewrite length_app, seq_app, app_assoc.
Qed.

Lemma fits_app ptr bs1 bs2 st :
  fits ptr bs1 st →
  fits (ptr + length bs1) bs2 (put ptr bs1 st) ↔ fits ptr (bs1 ++ bs2) st.
Proof.
  unfold fits. intros [-> | Hfit].
  - rewrite put_nil, app_nil_l. cbn [length]. by rewrite Nat.add_0_r.
  - rewrite put_length by done. rewrite length_app. split.
    + intros [-> | ?]; right; rewrite ?Nat.add_0_r; cbn [length]; lia.
    + intros [Hnil | ?]; [|right; lia].
      apply app_eq_nil in Hnil as [_ ->]. by left.
Qed.

Lemma fits_app_l ptr bs1 bs2 st :
  fits ptr (bs1 ++ bs2) st → fits ptr bs1 st.
Proof.
  unfold fits. rewrite length_app. intros [Hnil | ?]; [|right; lia].
  apply app_eq_nil in Hnil as [-> _]. by left.
Qed.

Lemma writes_ret {A} (r : A) ptr : writes (mret r) ptr [] r.
Proof.
  intros st. rewrite decide_True by (by left). by rewrite put_nil.
Qed.

Lemma writes_poke ptr n v : writes (poke ptr n v) (ptr + n) [u8 v] ().
Proof.
  intros st. unfold poke, fits, put. cbn [length seq].
  destruct (decide (ptr + n < length (mem st))) as [Hlt | Hge].
  - rewrite decide_True by (right; lia).
    rewrite insert_take_drop by done.
    do 4 f_equal. by rewrite Nat.add_1_r.
  - rewrite decide_False; [done|]. intros [? | ?]; [done | lia].
Qed.

Lemma writes_bind {A B} (m : M A) (k : A → M B) p q bs1 r1 bs2 r2 :
  writes m q bs1 r1 →
  q = p →
  writes (k r1) (p + length bs1) bs2 r2 →
  writes (m ≫= k) p (bs1 ++ bs2) r2.
Proof.
  intros Hm -> Hk st. unfold mbind, M_bind. rewrite Hm.
  destruct (decide (fits p bs1 st)) as [Hfit | Hno].
  - rewrite Hk. pose proof (fits_app p bs1 bs2 st Hfit) as Hiff.
    destruct (decide (fits (p + length bs1) bs2 (put p bs1 st))) as [H2 | H2].
    + rewrite decide_True by (by apply Hiff).
      destruct Hfit as [-> | Hle].
      * by rewrite put_nil, app_nil_l; cbn [length]; rewrite Nat.add_0_r.
      * by rewrite put_app.
    + rewrite decide_False; [done|]. intros H. by apply H2, Hiff.
  - rewrite decide_False; [done|]. intros H. by apply Hno, (fits_app_l _ _ bs2).
Qed.

Lemma writes_seq {A B} (m : M A) (k : A → M B) p bs1 r1 bs2 r2 :
  writes m p bs1 r1 →
  writes (k r1) (p + length bs1) bs2 r2 →
  writes (m ≫= k) p (bs1 ++ bs2) r2.
Proof. intros Hm Hk. by eapply writes_bind. Qed.

Lemma writes_poke_bind {B} (k : unit → M B) ptr n v p bs r :
  p = ptr + n →
  writes (k ()) (S p) bs r →
  writes (poke ptr n v ≫= k) p (u8 v :: bs) r.
Proof.
  intros -> Hk. change (u8 v :: bs) with ([u8 v] ++ bs).
  eapply writes_bind; [apply writes_poke | done |].
  cbn [length]. by rewrite Nat.add_1_r.
Qed.

Lemma writes_eq {A} (m : M A) ptr bs bs' r r' :
  writes m ptr bs r → bs = bs' → r = r' → writes m ptr bs' r'.
Proof. by intros ? <- <-. Qed.

(** Walks a writer's body statement by statement, collecting the
    bytes it stores; [leaf] settles the calls to other writers. *)
Ltac writes_walk leaf :=
  cbv beta iota zeta; cbn [length be16];
  lazymatch goal with
  | |- writes (mret _) _ _ _ => apply writes_ret
  | |- writes (poke _ _ _ ≫= _) _ _ _ =>
      eapply writes_poke_bind; [lia | writes_walk leaf]
  | |- writes (_ ≫= _) _ _ _ =>
      first [ eapply writes_bind; [leaf | lia | ]
            | eapply writes_seq; [writes_walk leaf | ] ];
      writes_walk leaf
  end.

Ltac writes_body leaf :=
  eapply writes_eq; [writes_walk leaf | try reflexivity | try reflexivity].

Lemma lor_write_heartbeat_writes ptr :
  writes (lor_write_heartbeat ptr) ptr (wire Heartbeat) 3.
Proof. unfold lor_write_heartbeat. writes_body fail. Qed.

Lemma lor_write_brightness_writes brightness ptr :
  writes (lor_write_brightness brightness ptr) ptr [u8 brightness] 1.
Proof. unfold lor_write_brightness. writes_body fail. Qed.

Lemma lor_write_duration_writes duration ptr :
  writes (lor_write_duration duration ptr) ptr (be16 duration) 2.
Proof. unfold lor_write_duration. writes_body fail. Qed.

Lemma lor_write_unit_action_writes unit action ptr :
  writes (lor_write_unit_action unit action ptr) ptr [u8 unit; u8 action] 2.
Proof. unfold lor_write_unit_action. writes_body fail. Qed.

Lemma lor_write_channel_writes channel ptr :
  writes (lor_write_channel channel ptr) ptr
    (channel_bytes channel) (length (channel_bytes channel)).
Proof.
  unfold lor_write_channel, channel_bytes.
  destruct (decide (0 < chain_index channel)%N), (type channel);
    writes_body fail.
Qed.

Ltac writes_leaf :=
  first [ apply lor_write_brightness_writes
        | apply lor_write_duration_writes
        | apply lor_write_channel_writes ].

Lemma lor_write_channel_action_writes unit action channel ptr :
  writes (lor_write_channel_action unit action channel ptr) ptr
    (wire (ChannelAction unit action channel))
    (2 + length (channel_bytes channel)).
Proof.
  unfold lor_write_channel_action. writes_body writes_leaf.
  cbn [wire app]. by rewrite app_nil_r.
Qed.

Lemma lor_write_channel_set_brightness_writes unit channel to ptr :
  writes (lor_write_channel_set_brightness unit channel to ptr) ptr
    (wire (ChannelSetBrightness unit channel to))
    (3 + length (channel_bytes channel)).
Proof.
  unfold lor_write_channel_set_brightness. writes_body writes_leaf.
  cbn [wire app]. by rewrite app_nil_r.
Qed.

Lemma lor_write_channel_fade_writes unit channel from to duration ptr :
  writes (lor_write_channel_fade unit channel from to duration ptr) ptr
    (wire (ChannelFade unit channel from to duration))
    (6 + length (channel_bytes channel)).
Proof.
  unfold lor_write_channel_fade. writes_body writes_leaf.
  cbn [wire app be16]. by rewrite app_nil_r.
Qed.

Lemma lor_write_channel_fade_with_writes
    unit foreground_action channel from to duration ptr :
  writes
    (lor_write_channel_fade_with
       unit foreground_action channel from to duration ptr) ptr
    (wire (ChannelFadeWith unit foreground_action channel from to duration))
    (8 + length (channel_bytes channel)).
Proof.
  unfold lor_write_channel_fade_with. writes_body writes_leaf.
  cbn; lia.
Qed.

(** ** Every run, characterised *)

Lemma writes_fits {A} (m : M A) ptr bs r st :
  writes m ptr bs r →
  ptr + length bs ≤ length (mem st) →
  m st = Some (r, put ptr bs st).
Proof. intros Hm Hfit. rewrite Hm. by rewrite decide_True by (by right). Qed.

Lemma writes_inv {A} (m : M A) ptr bs r st x st' :
  writes m ptr bs r →
  bs ≠ [] →
  m st = Some (x, st') →
  ptr + length bs ≤ length (mem st) ∧ x = r ∧ st' = put ptr bs st.
Proof.
  intros Hm Hne. rewrite Hm.
  destruct (decide (fits ptr bs st)) as [[? | ?] | ?]; [done | | done].
  by intros [= <- <-].
Qed.

Lemma channel_bytes_length channel :
  length (channel_bytes channel) =
  (if decide (0 < chain_index channel)%N then 1 else 0) +
  match type channel with LOR_CHANNEL_MASK16 => 2 | _ => 1 end.
Proof.
  unfold channel_bytes.
  by destruct (decide (0 < chain_index channel)%N), (type channel).
Qed.

Lemma channel_bytes_length_le channel :
  1 ≤ length (channel_bytes channel) ≤ 3.
Proof.
  rewrite channel_bytes_length.
  destruct (decide (0 < chain_index channel)%N), (type channel); lia.
Qed.

Lemma run_writes c ptr : writes (run c ptr) ptr (wire c) (length (wire c)).
Proof.
  destruct c; cbn [run];
    unfold lor_write_brightnessf, lor_write_durationf;
    (eapply writes_eq;
     [ first [ apply lor_write_heartbeat_writes
             | apply lor_write_brightness_writes
             | apply lor_write_duration_writes
             | apply lor_write_channel_writes
             | apply lor_write_channel_action_writes
             | apply lor_write_channel_set_brightness_writes
             | apply lor_write_channel_fade_writes
             | apply lor_write_channel_fade_with_writes
             | apply lor_write_unit_action_writes ]
     | reflexivity
     | cbn [wire]; rewrite ?length_app; cbn [length be16]; lia ]).
Qed.

Lemma wire_length_bounds c : 1 ≤ length (wire c) ≤ 11.
Proof.
  destruct c; cbn [wire]; rewrite ?length_app; cbn [length be16];
    try lia;
    match goal with
    | |- context [channel_bytes ?ch] =>
        pose proof (channel_bytes_length_le ch); lia
    end.
Qed.

Lemma wire_nonempty c : wire c ≠ [].
Proof.
  intros Hnil. pose proof (wire_length_bounds c) as Hlen.
  rewrite Hnil in Hlen. cbn in Hlen. lia.
Qed.

Lemma run_fits c ptr st :
  ptr + length (wire c) ≤ length (mem st) →
  run c ptr st = Some (length (wire c), put ptr (wire c) st).
Proof. apply writes_fits, run_writes. Qed.

Lemma run_inv c ptr st n st' :
  run c ptr st = Some (n, st') →
  ptr + length (wire c) ≤ length (mem st) ∧
  n = length (wire c) ∧ st' = put ptr (wire c) st.
Proof. apply writes_inv; [apply run_writes | apply wire_nonempty]. Qed.

Lemma run_is_Some c ptr st :
  ptr + 11 ≤ length (mem st) → is_Some (run c ptr st).
Proof.
  intros Hroom. pose proof (wire_length_bounds c).
  rewrite run_fits by lia. by eexists.
Qed.

(** ** What [put] leaves behind *)

Lemma region_put ptr bs st :
  ptr + length bs ≤ length (mem st) →
  region ptr (length bs) (put ptr bs st) = bs.
Proof.
  intros Hfit. unfold region, put. cbn [mem].
  rewrite drop_app_length' by (rewrite length_take; lia).
  by rewrite take_app_length'.
Qed.

Lemma stored_since_put ptr bs st :
  stored_since st (put ptr bs st) = seq ptr (length bs).
Proof. unfold stored_since, put. cbn [stores]. by rewrite drop_app_length. Qed.

Lemma put_lookup_frame ptr bs st i :
  ptr + length bs ≤ length (mem st) →
  i < ptr ∨ ptr + length bs ≤ i →
  mem (put ptr bs st) !! i = mem st !! i.
Proof.
  intros Hfit Hout. unfold put. cbn [mem]. destruct Hout as [Hlt | Hge].
  - rewrite lookup_app_l by (rewrite length_take; lia).
    by rewrite lookup_take_lt.
  - rewrite app_assoc, lookup_app_r
      by (rewrite length_app, length_take; lia).
    rewrite length_app, length_take, lookup_drop. f_equal. lia.
Qed.

Lemma region_lookup ptr n st i :
  i < n → region ptr n st !! i = mem st !! (ptr + i).
Proof.
  intros Hi. unfold region. by rewrite lookup_take_lt, lookup_drop.
Qed.

Lemma region_head ptr n st b bs :
  region ptr n st = b :: bs → mem st !! ptr = Some b.
Proof.
  intros Hreg. destruct n as [|n].
  - unfold region in Hreg. by rewrite take_0 in Hreg.
  - rewrite <- (Nat.add_0_r ptr), <- (region_lookup ptr (S n)) by lia.
    by rewrite Hreg.
Qed.

Lemma region_frame ptr n st st' :
  (∀ i, i < n → mem st' !! (ptr + i) = mem st !! (ptr + i)) →
  region ptr n st' = region ptr n st.
Proof.
  intros Hsame. apply list_eq. intros i.
  destruct (decide (i < n)) as [Hi | Hi].
  - rewrite !region_lookup by done. by apply Hsame.
  - unfold region. by rewrite !lookup_take_ge by lia.
Qed.

Lemma region_put_before ptr n q bs st :
  ptr + n ≤ q →
  q + length bs ≤ length (mem st) →
  region ptr n (put q bs st) = region ptr n st.
Proof.
  intros Hbefore Hfit. apply region_frame. intros i Hi.
  apply put_lookup_frame; [done | lia].
Qed.

(** What a channel reference encodes to when its fields have the
    widths of [valid_channel]. *)
Lemma channel_bytes_valid channel :
  valid_channel channel →
  is_u8 LOR_MAGIC_CHANNEL_ID_MASK →
  channel_bytes channel =
    (if decide (0 < chain_index channel)%N
     then [chain_index channel] else []) ++
    match type channel with
    | LOR_CHANNEL_ID => [N.lor LOR_MAGIC_CHANNEL_ID_MASK (bits channel)]
    | LOR_CHANNEL_MASK8 => [bits channel]
    | LOR_CHANNEL_MASK16 =>
        [(bits channel / 256)%N; (bits channel mod 256)%N]
    end.
Proof.
  intros [Hchain Hbits] Htag. unfold channel_bytes.
  rewrite (u8_small (chain_index channel)) by done.
  destruct (type channel);
    by rewrite ?be16_u16, ?u8_lor_small, ?u8_small.
Qed.

(** ** The claims *)

(** C1.  [lor_write_channel] returns 1, 2 or 3 as tabulated below and
    stores to that many consecutive offsets from the cursor.  For a
    channel whose fields have the widths of its variant, the bytes are
    the chain index, present exactly when it is positive, followed by
    the encoding of the variant: the id or-ed with the channel-id tag,
    the 8-bit mask, or the 16-bit mask high byte first.  With a positive
    chain index the first byte is that index. *)
Theorem lor_write_channel_encoding channel ptr st :
  (ptr + 3 ≤ length (mem st) →
   is_Some (lor_write_channel channel ptr st)) ∧
  ∀ n st', lor_write_channel channel ptr st = Some (n, st') →
    n = match type channel, bool_decide (0 < chain_index channel)%N with
        | LOR_CHANNEL_ID, false => 1
        | LOR_CHANNEL_ID, true => 2
        | LOR_CHANNEL_MASK8, false => 1
        | LOR_CHANNEL_MASK8, true => 2
        | LOR_CHANNEL_MASK16, false => 2
        | LOR_CHANNEL_MASK16, true => 3
        end ∧
    stored_since st st' = seq ptr n ∧
    (valid_channel channel → is_u8 LOR_MAGIC_CHANNEL_ID_MASK →
     region ptr n st' =
       (if decide (0 < chain_index channel)%N
        then [chain_index channel] else []) ++
       match type channel with
       | LOR_CHANNEL_ID => [N.lor LOR_MAGIC_CHANNEL_ID_MASK (bits channel)]
       | LOR_CHANNEL_MASK8 => [bits channel]
       | LOR_CHANNEL_MASK16 =>
           [(bits channel / 256)%N; (bits channel mod 256)%N]
       end ∧
     ((0 < chain_index channel)%N →
      mem st' !! ptr = Some (chain_index channel))).
Proof.
  pose proof (lor_write_channel_writes channel ptr) as Hw.
  pose proof (channel_bytes_length_le channel) as Hlen.
  split.
  - intros Hroom. rewrite (writes_fits _ _ _ _ _ Hw) by lia. by eexists.
  - intros n st' Hrun.
    apply (writes_inv _ _ _ _ _ _ _ Hw) in Hrun as (Hfit & -> & ->);
      [|intros Hnil; rewrite Hnil in Hlen; cbn in Hlen; lia].
    assert (region ptr (length (channel_bytes channel))
              (put ptr (channel_bytes channel) st) =
            channel_bytes channel) as Hreg by (by apply region_put).
    rewrite stored_since_put. split_and!; [|done|].
    + rewrite channel_bytes_length.
      by destruct (type channel); case_bool_decide;
        rewrite ?decide_True, ?decide_False by done.
    + intros Hvalid Htag.
      pose proof (channel_bytes_valid channel Hvalid Htag) as Hbytes.
      split; [by rewrite Hreg|].
      intros Hpos. rewrite decide_True in Hbytes by done.
      eapply region_head. etrans; [exact Hreg | exact Hbytes].
Qed.

(** C2.  [lor_write_channel_fade_with] stores, in this order: the
    unit; the channel magic or-ed with the foreground action; the
    channel encoding, once, as [lor_write_channel] produces it right
    after those two bytes; the AND magic; the channel magic or-ed with
    the fade action; the two brightness bytes; the duration, high byte
    first.  Nothing stands between the AND magic and the fade action,
    so the encoding is not repeated. *)
Theorem lor_write_channel_fade_with_layout
    unit foreground_action channel from to duration ptr st :
  is_u8 unit → is_u8 foreground_action →
  is_u8 from → is_u8 to → is_u16 duration →
  is_u8 LOR_MAGIC_AND → is_u8 LOR_ACTION_CHANNEL_FADE →
  is_u8 (lor_get_channel_magic channel) →
  (ptr + 11 ≤ length (mem st) →
   is_Some (lor_write_channel_fade_with
              unit foreground_action channel from to duration ptr st)) ∧
  ∀ n st',
    lor_write_channel_fade_with
      unit foreground_action channel from to duration ptr st
    = Some (n, st') →
    ∃ k st1,
      lor_write_channel channel (ptr + 2) st = Some (k, st1) ∧
      n = 8 + k ∧
      region ptr n st' =
        [unit; N.lor (lor_get_channel_magic channel) foreground_action] ++
        region (ptr + 2) k st1 ++
        [LOR_MAGIC_AND;
         N.lor (lor_get_channel_magic channel) LOR_ACTION_CHANNEL_FADE;
         from; to; (duration / 256)%N; (duration mod 256)%N].
Proof.
  intros Hunit Hfg Hfrom Hto Hdur Hand Hfade Hmagic.
  set (c := ChannelFadeWith unit foreground_action channel from to duration).
  change (lor_write_channel_fade_with
            unit foreground_action channel from to duration ptr st)
    with (run c ptr st).
  split; [apply run_is_Some|].
  intros n st' Hrun. apply run_inv in Hrun as (Hfit & -> & ->).
  pose proof (lor_write_channel_writes channel (ptr + 2)) as Hw.
  assert (length (wire c) = 8 + length (channel_bytes channel)) as Hlen.
  { subst c. cbn [wire]. rewrite !length_app. cbn [length be16]. lia. }
  eexists _, _. split; [apply (writes_fits _ _ _ _ _ Hw); lia|].
  split; [done|].
  rewrite !region_put by lia. subst c. cbn [wire]. unfold action_byte.
  by rewrite be16_u16, !u8_lor_small, !u8_small.
Qed.

(** C4.  A composer that is given the documented 13 bytes of room
    returns, and whatever a composer returns is at most 13 and is the
    number of bytes it stored. *)
Theorem composer_count_le_13 c ptr st :
  composer c = true →
  (ptr + 13 ≤ length (mem st) → is_Some (run c ptr st)) ∧
  ∀ n st', run c ptr st = Some (n, st') →
    n ≤ 13 ∧ length (stored_since st st') = n.
Proof.
  intros _. pose proof (wire_length_bounds c) as Hlen. split.
  - intros Hroom. apply run_is_Some. lia.
  - intros n st' Hrun. apply run_inv in Hrun as (_ & -> & ->).
    rewrite stored_since_put, length_seq. lia.
Qed.

(** C5.  [lor_write_duration] stores two bytes and returns 2: the high
    byte of the 16-bit tick count, then the low byte, so that
    [high * 256 + low] gives the tick count back; for 0x0102 the bytes
    are 0x01, 0x02. *)
Theorem lor_write_duration_big_endian duration ptr st :
  is_u16 duration →
  (ptr + 2 ≤ length (mem st) →
   is_Some (lor_write_duration duration ptr st)) ∧
  (∀ n st', lor_write_duration duration ptr st = Some (n, st') →
     n = 2 ∧
     stored_since st st' = [ptr; ptr + 1] ∧
     ∃ high low,
       region ptr 2 st' = [high; low] ∧
       high = (duration / 256)%N ∧ low = (duration mod 256)%N ∧
       is_u8 high ∧ is_u8 low ∧
       (high * 256 + low)%N = duration) ∧
  (∀ st', lor_write_duration 0x0102 ptr st = Some (2, st') →
     region ptr 2 st' = [0x01; 0x02]%N).
Proof.
  intros Hdur.
  assert (∀ d n st', lor_write_duration d ptr st = Some (n, st') →
            n = 2 ∧ st' = put ptr (be16 d) st ∧
            region ptr 2 st' = be16 d) as Hinv.
  { intros d n st' Hrun.
    apply (writes_inv _ _ _ _ _ _ _ (lor_write_duration_writes d ptr))
      in Hrun as (Hfit & -> & ->); [|done].
    split_and!; [done..|]. by apply (region_put ptr (be16 d)). }
  split_and!.
  - intros Hroom.
    rewrite (writes_fits _ _ _ _ _ (lor_write_duration_writes duration ptr))
      by done.
    by eexists.
  - intros n st' Hrun. apply Hinv in Hrun as (-> & -> & Hreg).
    split_and!; [done| |].
    + rewrite stored_since_put. cbn. by rewrite Nat.add_1_r.
    + rewrite Hreg, be16_u16 by done. eexists _, _.
      split_and!; [done..| | |].
      * rewrite <- high_byte_u16 by done. apply u8_is_u8.
      * apply u8_is_u8.
      * pose proof (N.div_mod duration 256). lia.
  - intros st' Hrun. by apply Hinv in Hrun as (_ & _ & ->).
Qed.

(** C6.  Every write function that returns [n] has stored to the [n]
    consecutive offsets from the cursor, in order and to nothing else;
    the buffer keeps its size and every byte before the cursor or at
    offset [n] and beyond is as it was.  A second call at the cursor
    advanced by [n] therefore leaves the first run intact and extends
    it without a gap. *)
Theorem write_frame c ptr st :
  (ptr + 11 ≤ length (mem st) → is_Some (run c ptr st)) ∧
  ∀ n st', run c ptr st = Some (n, st') →
    stored_since st st' = seq ptr n ∧
    ptr + n ≤ length (mem st) ∧
    length (mem st') = length (mem st) ∧
    (∀ i, i < ptr ∨ ptr + n ≤ i → mem st' !! i = mem st !! i) ∧
    (∀ c2 n2 st2, run c2 (ptr + n) st' = Some (n2, st2) →
       region ptr n st2 = region ptr n st' ∧
       stored_since st st2 = seq ptr (n + n2)).
Proof.
  split; [apply run_is_Some|].
  intros n st' Hrun. apply run_inv in Hrun as (Hfit & -> & ->).
  split_and!.
  - apply stored_since_put.
  - done.
  - by apply put_length.
  - intros i Hi. by apply put_lookup_frame.
  - intros c2 n2 st2 Hrun2. apply run_inv in Hrun2 as (Hfit2 & -> & ->).
    split; [by apply region_put_before|].
    rewrite put_app by done. rewrite stored_since_put. by rewrite length_app.
Qed.

(** C7.  [lor_write_unit_action] stores the unit, then the action, and
    returns 2. *)
Theorem lor_write_unit_action_layout unit action ptr st :
  is_u8 unit → is_u8 action →
  ptr + 2 ≤ length (mem st) →
  ∃ st',
    lor_write_unit_action unit action ptr st = Some (2, st') ∧
    region ptr 2 st' = [unit; action] ∧
    stored_since st st' = [ptr; ptr + 1].
Proof.
  intros Hunit Haction Hroom.
  pose proof (lor_write_unit_action_writes unit action ptr) as Hw.
  eexists. split; [by apply (writes_fits _ _ _ _ _ Hw)|].
  split.
  - rewrite (region_put ptr [u8 unit; u8 action]) by done.
    by rewrite !u8_small.
  - rewrite stored_since_put. cbn. by rewrite Nat.add_1_r.
Qed.

(** C8.  A composer called twice with the same arguments, on buffers
    of the same size, gives the same count and the same bytes: what
    the caller observes is determined by the arguments. *)
Theorem composer_deterministic c ptr st1 st2 :
  composer c = true →
  length (mem st1) = length (mem st2) →
  outcome (run c ptr) ptr st1 = outcome (run c ptr) ptr st2 ∧
  (ptr + 11 ≤ length (mem st1) → is_Some (outcome (run c ptr) ptr st1)).
Proof.
  intros _ Hsize. pose proof (wire_length_bounds c) as Hlen.
  assert (∀ st, ptr + length (wire c) ≤ length (mem st) →
            outcome (run c ptr) ptr st = Some (length (wire c), wire c))
    as Hout.
  { intros st Hfit. unfold outcome. rewrite run_fits by done.
    by rewrite region_put. }
  split.
  - destruct (decide (ptr + length (wire c) ≤ length (mem st1))) as [Hfit | Hno].
    + rewrite !Hout by lia. done.
    + unfold outcome.
      destruct (run c ptr st1) as [[n1 st1']|] eqn:Hrun1.
      { apply run_inv in Hrun1 as (? & _). lia. }
      destruct (run c ptr st2) as [[n2 st2']|] eqn:Hrun2; [|done].
      apply run_inv in Hrun2 as (? & _). lia.
  - intros Hroom. rewrite Hout by lia. by eexists.
Qed.

(** C9.  No write function looks at the buffer it is given: on two
    buffers of any contents and sizes, equal arguments give the same
    count, the same offsets stored to and the same bytes there.  The
    offsets are the run from the cursor and no other, every position
    outside the run keeps the value it had in its own buffer, and one
    and the same message is spliced into both: what a call leaves
    behind is fixed by its arguments inside the run and by the buffer
    outside it, and nothing of the old contents moves or changes. *)
Theorem write_ignores_buffer c ptr st1 st2 :
  (ptr + 11 ≤ length (mem st1) → is_Some (run c ptr st1)) ∧
  ∀ n1 st1' n2 st2',
    run c ptr st1 = Some (n1, st1') →
    run c ptr st2 = Some (n2, st2') →
    n1 = n2 ∧
    stored_since st1 st1' = stored_since st2 st2' ∧
    region ptr n1 st1' = region ptr n2 st2' ∧
    stored_since st1 st1' = seq ptr n1 ∧
    (∀ i, i < n1 → mem st1' !! (ptr + i) = mem st2' !! (ptr + i)) ∧
    (∀ i, i < ptr ∨ ptr + n1 ≤ i → mem st1' !! i = mem st1 !! i) ∧
    (∀ i, i < ptr ∨ ptr + n1 ≤ i → mem st2' !! i = mem st2 !! i) ∧
    ∃ message,
      length message = n1 ∧
      mem st1' =
        take ptr (mem st1) ++ message ++ drop (ptr + n1) (mem st1) ∧
      mem st2' =
        take ptr (mem st2) ++ message ++ drop (ptr + n1) (mem st2).
Proof.
  split; [apply run_is_Some|].
  intros n1 st1' n2 st2' Hrun1 Hrun2.
  apply run_inv in Hrun1 as (Hfit1 & -> & ->).
  apply run_inv in Hrun2 as (Hfit2 & -> & ->).
  assert (region ptr (length (wire c)) (put ptr (wire c) st1) =
          region ptr (length (wire c)) (put ptr (wire c) st2)) as Hreg
    by (by rewrite !region_put).
  split_and!.
  - done.
  - by rewrite !stored_since_put.
  - exact Hreg.
  - apply stored_since_put.
  - intros i Hi. rewrite <- !(region_lookup ptr (length (wire c))) by done.
    by rewrite Hreg.
  - intros i Hi. by apply put_lookup_frame.
  - intros i Hi. by apply put_lookup_frame.
  - by exists (wire c).
Qed.

(** C3, as the code has it.  The longest message a composer writes is
    11 bytes: [lor_write_channel_fade_with] returns 11 for a 16-bit
    mask with a nonzero chain index, and no composer returns more on
    any input.  The 13 of the documentation is an upper bound that no
    call reaches. *)
Theorem composer_maximum_is_11
    unit foreground_action channel from to duration ptr st :
  type channel = LOR_CHANNEL_MASK16 →
  chain_index channel ≠ 0%N →
  ptr + 11 ≤ length (mem st) →
  (∃ st',
     lor_write_channel_fade_with
       unit foreground_action channel from to duration ptr st
     = Some (11, st')) ∧
  ∀ c ptr0 st0 n st0',
    composer c = true → run c ptr0 st0 = Some (n, st0') → n ≤ 11.
Proof.
  intros Htype Hchain Hroom. split.
  - pose proof (lor_write_channel_fade_with_writes
                  unit foreground_action channel from to duration ptr) as Hw.
    assert (length (channel_bytes channel) = 3) as Hlen.
    { rewrite channel_bytes_length, Htype.
      rewrite decide_True by lia. done. }
    rewrite Hlen in Hw. eexists. apply (writes_fits _ _ _ _ _ Hw).
    cbn [wire]. rewrite !length_app, Hlen. cbn [length be16]. lia.
  - intros c ptr0 st0 n st0' _ Hrun.
    apply run_inv in Hrun as (_ & -> & _). apply wire_length_bounds.
Qed.

(** C10, as the code has it.  A channel-addressed composer returns a
    fixed overhead on top of the count [lor_write_channel] returns for
    the same channel: 2 for the channel action, 3 for set-brightness,
    6 for the fade and 8 for the fade with a foreground action.  That
    count is fixed by the variant and by whether the chain index is
    positive, whatever the unit, action, brightness and duration. *)
Theorem composer_count_overhead
    unit action channel from to duration ptr st ptr0 st0 :
  ptr0 + 3 ≤ length (mem st0) →
  ptr + 11 ≤ length (mem st) →
  ∃ C,
    fst <$> lor_write_channel channel ptr0 st0 = Some C ∧
    fst <$> lor_write_channel_action unit action channel ptr st
      = Some (2 + C) ∧
    fst <$> lor_write_channel_set_brightness unit channel to ptr st
      = Some (3 + C) ∧
    fst <$> lor_write_channel_fade unit channel from to duration ptr st
      = Some (6 + C) ∧
    fst <$> lor_write_channel_fade_with
              unit action channel from to duration ptr st
      = Some (8 + C) ∧
    C = (if decide (0 < chain_index channel)%N then 1 else 0) +
        match type channel with LOR_CHANNEL_MASK16 => 2 | _ => 1 end.
Proof.
  intros Hroom0 Hroom.
  pose proof (channel_bytes_length_le channel) as Hlen.
  exists (length (channel_bytes channel)).
  rewrite (writes_fits _ _ _ _ _ (lor_write_channel_writes channel ptr0))
    by lia.
  rewrite (writes_fits _ _ _ _ _
             (lor_write_channel_action_writes unit action channel ptr))
    by (cbn [wire]; rewrite !length_app; cbn [length be16]; lia).
  rewrite (writes_fits _ _ _ _ _
             (lor_write_channel_set_brightness_writes unit channel to ptr))
    by (cbn [wire]; rewrite !length_app; cbn [length be16]; lia).
  rewrite (writes_fits _ _ _ _ _
             (lor_write_channel_fade_writes
                unit channel from to duration ptr))
    by (cbn [wire]; rewrite !length_app; cbn [length be16]; lia).
  rewrite (writes_fits _ _ _ _ _
             (lor_write_channel_fade_with_writes
                unit action channel from to duration ptr))
    by (cbn [wire]; rewrite !length_app; cbn [length be16]; lia).
  split_and!; [done..|]. apply channel_bytes_length.
Qed.

(** ** Beyond the claims: the remaining writers and how they combine *)

Lemma run_region c ptr st n st' :
  run c ptr st = Some (n, st') →
  n = length (wire c) ∧ region ptr n st' = wire c.
Proof.
  intros Hrun. apply run_inv in Hrun as (Hfit & -> & ->).
  split; [done | by apply region_put].
Qed.

Lemma region_put_prefix ptr bs1 bs2 st :
  ptr + length (bs1 ++ bs2) ≤ length (mem st) →
  region ptr (length bs1) (put ptr (bs1 ++ bs2) st) = bs1.
Proof.
  rewrite length_app. intros Hfit.
  rewrite <- put_app by lia.
  rewrite region_put_before by (rewrite ?put_length; lia).
  apply region_put. lia.
Qed.

Lemma channel_at_fits channel ptr st off k :
  ptr + (off + length (channel_bytes channel) + k) ≤ length (mem st) →
  lor_write_channel channel (ptr + off) st
  = Some (length (channel_bytes channel),
          put (ptr + off) (channel_bytes channel) st) ∧
  region (ptr + off) (length (channel_bytes channel))
    (put (ptr + off) (channel_bytes channel) st) = channel_bytes channel.
Proof.
  intros Hfit. split.
  - apply (writes_fits _ _ _ _ _ (lor_write_channel_writes _ _)). lia.
  - apply region_put. lia.
Qed.

(** X1.  [lor_write_heartbeat] stores the broadcast unit, the AND magic
    and the heartbeat magic, in this order, and returns 3. *)
Theorem lor_write_heartbeat_layout ptr st :
  is_u8 LOR_UNIT_ID_BROADCAST → is_u8 LOR_MAGIC_AND →
  is_u8 LOR_MAGIC_HEARTBEAT →
  ptr + 3 ≤ length (mem st) →
  ∃ st',
    lor_write_heartbeat ptr st = Some (3, st') ∧
    region ptr 3 st' =
      [LOR_UNIT_ID_BROADCAST; LOR_MAGIC_AND; LOR_MAGIC_HEARTBEAT] ∧
    stored_since st st' = [ptr; ptr + 1; ptr + 2].
Proof.
  intros Hunit Hand Hbeat Hroom.
  pose proof (lor_write_heartbeat_writes ptr) as Hw.
  eexists. split; [by apply (writes_fits _ _ _ _ _ Hw)|]. split.
  - rewrite (region_put ptr (wire Heartbeat)) by done.
    cbn [wire]. by rewrite !u8_small.
  - rewrite stored_since_put. cbn [wire length seq].
    by rewrite !Nat.add_succ_r, Nat.add_0_r.
Qed.

(** X2.  [lor_write_brightnessf] applies the curve to the normalized
    value and does what [lor_write_brightness] does with the result: one
    byte, the brightness, and a count of 1. *)
Theorem lor_write_brightnessf_layout
    (normal : float) (brightness_curve : float → N) ptr st :
  is_u8 (brightness_curve normal) →
  ptr + 1 ≤ length (mem st) →
  ∃ st',
    lor_write_brightnessf normal brightness_curve ptr st = Some (1, st') ∧
    lor_write_brightness (brightness_curve normal) ptr st = Some (1, st') ∧
    region ptr 1 st' = [brightness_curve normal] ∧
    stored_since st st' = [ptr].
Proof.
  intros Hbyte Hroom. unfold lor_write_brightnessf.
  pose proof (lor_write_brightness_writes (brightness_curve normal) ptr) as Hw.
  eexists. split; [by apply (writes_fits _ _ _ _ _ Hw)|].
  split; [by apply (writes_fits _ _ _ _ _ Hw)|]. split.
  - rewrite (region_put ptr [u8 (brightness_curve normal)]) by done.
    by rewrite u8_small.
  - by rewrite stored_since_put.
Qed.

(** X3.  [lor_write_durationf] converts the seconds with
    [lor_duration_of] and stores the resulting 16-bit tick count high
    byte first; the two bytes give the tick count back. *)
Theorem lor_write_durationf_layout (seconds : float) ptr st :
  is_u16 (lor_duration_of seconds) →
  ptr + 2 ≤ length (mem st) →
  ∃ st' high low,
    lor_write_durationf seconds ptr st = Some (2, st') ∧
    region ptr 2 st' = [high; low] ∧
    is_u8 high ∧ is_u8 low ∧
    (high * 256 + low)%N = lor_duration_of seconds.
Proof.
  intros Hticks Hroom. unfold lor_write_durationf.
  pose proof (lor_write_duration_writes (lor_duration_of seconds) ptr) as Hw.
  eexists _, _, _. split; [by apply (writes_fits _ _ _ _ _ Hw)|].
  rewrite (region_put ptr (be16 (lor_duration_of seconds))) by done.
  rewrite be16_u16 by done. split_and!; [done| | |].
  - rewrite <- high_byte_u16 by done. apply u8_is_u8.
  - apply u8_is_u8.
  - pose proof (N.div_mod (lor_duration_of seconds) 256). lia.
Qed.

(** X4.  [lor_write_channel_action] stores the unit, the channel magic
    or-ed with the action, and then the channel encoding as
    [lor_write_channel] produces it at the cursor advanced by 2. *)
Theorem lor_write_channel_action_layout unit action channel ptr st :
  is_u8 unit → is_u8 action → is_u8 (lor_get_channel_magic channel) →
  (ptr + 5 ≤ length (mem st) →
   is_Some (lor_write_channel_action unit action channel ptr st)) ∧
  ∀ n st',
    lor_write_channel_action unit action channel ptr st = Some (n, st') →
    ∃ k st1,
      lor_write_channel channel (ptr + 2) st = Some (k, st1) ∧
      n = 2 + k ∧
      region ptr n st' =
        [unit; N.lor (lor_get_channel_magic channel) action] ++
        region (ptr + 2) k st1.
Proof.
  intros Hunit Haction Hmagic.
  set (c := ChannelAction unit action channel).
  change (lor_write_channel_action unit action channel ptr st)
    with (run c ptr st).
  pose proof (channel_bytes_length_le channel) as Hlen.
  assert (length (wire c) = 2 + length (channel_bytes channel)) as Hwire.
  { subst c. cbn [wire]. by rewrite length_app. }
  split.
  - intros Hroom. rewrite run_fits by lia. by eexists.
  - intros n st' Hrun. pose proof Hrun as Hfit%run_inv.
    destruct Hfit as (Hfit & _). apply run_region in Hrun as (-> & ->).
    destruct (channel_at_fits channel ptr st 2 0) as [Hch Hreg]; [lia|].
    eexists _, _. split; [exact Hch|]. split; [done|].
    rewrite Hreg. subst c. cbn [wire]. unfold action_byte.
    by rewrite u8_lor_small, !u8_small.
Qed.

(** X5.  [lor_write_channel_set_brightness] stores the unit, the channel
    magic or-ed with the set-brightness action, the brightness, and then
    the channel encoding at the cursor advanced by 3. *)
Theorem lor_write_channel_set_brightness_layout unit channel to ptr st :
  is_u8 unit → is_u8 to →
  is_u8 LOR_ACTION_CHANNEL_SET_BRIGHTNESS →
  is_u8 (lor_get_channel_magic channel) →
  (ptr + 6 ≤ length (mem st) →
   is_Some (lor_write_channel_set_brightness unit channel to ptr st)) ∧
  ∀ n st',
    lor_write_channel_set_brightness unit channel to ptr st
    = Some (n, st') →
    ∃ k st1,
      lor_write_channel channel (ptr + 3) st = Some (k, st1) ∧
      n = 3 + k ∧
      region ptr n st' =
        [unit;
         N.lor (lor_get_channel_magic channel)
           LOR_ACTION_CHANNEL_SET_BRIGHTNESS;
         to] ++
        region (ptr + 3) k st1.
Proof.
  intros Hunit Hto Hset Hmagic.
  set (c := ChannelSetBrightness unit channel to).
  change (lor_write_channel_set_brightness unit channel to ptr st)
    with (run c ptr st).
  pose proof (channel_bytes_length_le channel) as Hlen.
  assert (length (wire c) = 3 + length (channel_bytes channel)) as Hwire.
  { subst c. cbn [wire]. by rewrite length_app. }
  split.
  - intros Hroom. rewrite run_fits by lia. by eexists.
  - intros n st' Hrun. pose proof Hrun as Hfit%run_inv.
    destruct Hfit as (Hfit & _). apply run_region in Hrun as (-> & ->).
    destruct (channel_at_fits channel ptr st 3 0) as [Hch Hreg]; [lia|].
    eexists _, _. split; [exact Hch|]. split; [done|].
    rewrite Hreg. subst c. cbn [wire]. unfold action_byte.
    by rewrite u8_lor_small, !u8_small.
Qed.

(** X6.  [lor_write_channel_fade] stores the unit, the channel magic
    or-ed with the fade action, the two brightness bytes, the duration
    high byte first, and only then the channel encoding, at the cursor
    advanced by 6. *)
Theorem lor_write_channel_fade_layout
    unit channel from to duration ptr st :
  is_u8 unit → is_u8 from → is_u8 to → is_u16 duration →
  is_u8 LOR_ACTION_CHANNEL_FADE →
  is_u8 (lor_get_channel_magic channel) →
  (ptr + 9 ≤ length (mem st) →
   is_Some (lor_write_channel_fade unit channel from to duration ptr st)) ∧
  ∀ n st',
    lor_write_channel_fade unit channel from to duration ptr st
    = Some (n, st') →
    ∃ k st1,
      lor_write_channel channel (ptr + 6) st = Some (k, st1) ∧
      n = 6 + k ∧
      region ptr n st' =
        [unit;
         N.lor (lor_get_channel_magic channel) LOR_ACTION_CHANNEL_FADE;
         from; to; (duration / 256)%N; (duration mod 256)%N] ++
        region (ptr + 6) k st1.
Proof.
  intros Hunit Hfrom Hto Hdur Hfade Hmagic.
  set (c := ChannelFade unit channel from to duration).
  change (lor_write_channel_fade unit channel from to duration ptr st)
    with (run c ptr st).
  pose proof (channel_bytes_length_le channel) as Hlen.
  assert (length (wire c) = 6 + length (channel_bytes channel)) as Hwire.
  { subst c. cbn [wire]. rewrite !length_app. cbn [length be16]. lia. }
  split.
  - intros Hroom. rewrite run_fits by lia. by eexists.
  - intros n st' Hrun. pose proof Hrun as Hfit%run_inv.
    destruct Hfit as (Hfit & _). apply run_region in Hrun as (-> & ->).
    destruct (channel_at_fits channel ptr st 6 0) as [Hch Hreg]; [lia|].
    eexists _, _. split; [exact Hch|]. split; [done|].
    rewrite Hreg. subst c. cbn [wire]. unfold action_byte.
    by rewrite be16_u16, u8_lor_small, !u8_small.
Qed.

(** X7.  A fade with a foreground action begins with the very message
    [lor_write_channel_action] writes for that action and channel; the
    AND magic comes right after it, and six bytes follow the message in
    all. *)
Theorem lor_write_channel_fade_with_prefix
    unit foreground_action channel from to duration ptr st n st' :
  lor_write_channel_fade_with
    unit foreground_action channel from to duration ptr st
  = Some (n, st') →
  ∃ k sta,
    lor_write_channel_action unit foreground_action channel ptr st
    = Some (k, sta) ∧
    n = k + 6 ∧
    region ptr k st' = region ptr k sta ∧
    mem st' !! (ptr + k) = Some (u8 LOR_MAGIC_AND).
Proof.
  set (c := ChannelFadeWith unit foreground_action channel from to duration).
  set (a := ChannelAction unit foreground_action channel).
  change (lor_write_channel_fade_with
            unit foreground_action channel from to duration ptr st)
    with (run c ptr st).
  change (lor_write_channel_action unit foreground_action channel ptr st)
    with (run a ptr st).
  intros Hrun. apply run_inv in Hrun as (Hfit & -> & ->).
  assert (wire c = wire a ++
            u8 LOR_MAGIC_AND ::
            [action_byte channel LOR_ACTION_CHANNEL_FADE; u8 from; u8 to] ++
            be16 duration) as Hwire.
  { subst c a. cbn [wire]. by rewrite <- !app_assoc. }
  rewrite Hwire in *. rewrite length_app in Hfit. cbn [length app be16] in Hfit.
  eexists _, _. split; [apply run_fits; lia|]. split_and!.
  - rewrite length_app. cbn [length app be16]. lia.
  - rewrite region_put by lia. apply region_put_prefix.
    rewrite length_app. cbn [length app be16]. lia.
  - rewrite <- put_app by lia.
    eapply region_head, (region_put (ptr + length (wire a)) (_ :: _)).
    rewrite put_length by lia. cbn [length app be16]. lia.
Qed.

(** X8.  The room a call needs is exactly the count it returns: a call
    that returns [n] on one buffer has a result on another buffer, at
    any cursor, if and only if [n] bytes are left from that cursor; with
    less room a store would fall outside the buffer. *)
Theorem run_needs_exactly_its_count c ptr st n st' ptr2 st2 :
  run c ptr st = Some (n, st') →
  is_Some (run c ptr2 st2) ↔ ptr2 + n ≤ length (mem st2).
Proof.
  intros Hrun. apply run_inv in Hrun as (_ & -> & _). split.
  - intros [[n2 st2'] Hrun2]. by apply run_inv in Hrun2 as (? & _).
  - intros Hfit. rewrite run_fits by done. by eexists.
Qed.

(** X9.  The bytes of a message do not depend on where it is written:
    the same call at two cursors, in two buffers, returns the same count
    and leaves the same bytes at the respective cursor. *)
Theorem run_position_independent c ptr1 st1 n1 st1' ptr2 st2 n2 st2' :
  run c ptr1 st1 = Some (n1, st1') →
  run c ptr2 st2 = Some (n2, st2') →
  n1 = n2 ∧ region ptr1 n1 st1' = region ptr2 n2 st2'.
Proof.
  intros (-> & ->)%run_region (-> & ->)%run_region. done.
Qed.

(** X11.  Two calls chained through the returned count leave the two
    messages side by side: the bytes from the first cursor are the
    message of the first call followed by the message of the second,
    each as it would be written on its own anywhere else. *)
Theorem run_chain_concatenates
    c1 c2 ptr st n1 st1 n2 st2 pa sta na sta' pb stb nb stb' :
  run c1 ptr st = Some (n1, st1) →
  run c2 (ptr + n1) st1 = Some (n2, st2) →
  run c1 pa sta = Some (na, sta') →
  run c2 pb stb = Some (nb, stb') →
  n1 = na ∧ n2 = nb ∧
  region ptr (n1 + n2) st2 = region pa na sta' ++ region pb nb stb'.
Proof.
  intros Hrun1 Hrun2 (-> & ->)%run_region (-> & ->)%run_region.
  apply run_inv in Hrun1 as (Hfit1 & -> & ->).
  apply run_inv in Hrun2 as (Hfit2 & -> & ->).
  rewrite put_length in Hfit2 by done.
  split_and!; [done..|].
  rewrite put_app by done. rewrite <- length_app.
  apply region_put. rewrite length_app. lia.
Qed.

Lemma lor_disjoint_inj m a b :
  N.land m a = 0%N → N.land m b = 0%N →
  N.lor m a = N.lor m b → a = b.
Proof.
  intros Ha Hb Hlor. apply N.bits_inj. intros i.
  assert (N.testbit (N.lor m a) i = N.testbit (N.lor m b) i) as Hi
    by (by rewrite Hlor).
  assert (N.testbit (N.land m a) i = false) as Hai
    by (rewrite Ha; apply N.bits_0).
  assert (N.testbit (N.land m b) i = false) as Hbi
    by (rewrite Hb; apply N.bits_0).
  rewrite !N.lor_spec in Hi. rewrite N.land_spec in Hai, Hbi.
  by destruct (N.testbit m i), (N.testbit a i), (N.testbit b i).
Qed.

(** X12.  Within one variant the channel encoding loses nothing: two
    channels of the same variant, with fields of the variant's widths
    and, for a single id, ids that stay clear of the channel-id tag
    bits, are equal as soon as [lor_write_channel] leaves the same
    bytes for both. *)
Theorem lor_write_channel_injective
    c1 c2 ptr1 st1 n1 st1' ptr2 st2 n2 st2' :
  valid_channel c1 → valid_channel c2 →
  type c1 = type c2 →
  is_u8 LOR_MAGIC_CHANNEL_ID_MASK →
  (type c1 = LOR_CHANNEL_ID →
   N.land LOR_MAGIC_CHANNEL_ID_MASK (bits c1) = 0%N ∧
   N.land LOR_MAGIC_CHANNEL_ID_MASK (bits c2) = 0%N) →
  lor_write_channel c1 ptr1 st1 = Some (n1, st1') →
  lor_write_channel c2 ptr2 st2 = Some (n2, st2') →
  region ptr1 n1 st1' = region ptr2 n2 st2' →
  c1 = c2.
Proof.
  intros Hv1 Hv2 Htype Htag Hclear Hrun1 Hrun2.
  apply (run_region (ChannelRef c1)) in Hrun1 as (-> & ->).
  apply (run_region (ChannelRef c2)) in Hrun2 as (-> & ->).
  cbn [wire]. rewrite !channel_bytes_valid by done.
  destruct c1 as [t1 b1 i1], c2 as [t2 b2 i2].
  cbn [type bits chain_index] in *. subst t2.
  destruct Hv1 as [Hi1 Hb1], Hv2 as [Hi2 Hb2].
  cbn [type bits chain_index] in *.
  destruct (decide (0 < i1)%N), (decide (0 < i2)%N), t1;
    cbn [app]; intros Heq; try discriminate Heq;
    assert (i1 = i2) as -> by (first [congruence | lia]);
    f_equal.
  all: try congruence.
  all: try (destruct Hclear as [Hc1 Hc2]; [done|];
            eapply lor_disjoint_inj; [exact Hc1 | exact Hc2 | congruence]).
  all: rewrite (N.div_mod b1 256), (N.div_mod b2 256) by done;
    assert ((b1 / 256)%N = (b2 / 256)%N) as -> by congruence;
    assert ((b1 mod 256)%N = (b2 mod 256)%N) as -> by congruence;
    done.
Qed.

Lemma land_mod_pow2 v (w m : N) :
  N.land (N.ones w) m = m →
  N.land (v mod 2 ^ w) m = N.land v m.
Proof.
  intros Hm. by rewrite <- N.land_ones, <- N.land_assoc, Hm.
Qed.

Lemma channel_bytes_truncates t b i :
  channel_bytes
    (Channel t (b mod match t with
                      | LOR_CHANNEL_MASK16 => 65536
                      | _ => 256
                      end) i)
  = channel_bytes (Channel t b i).
Proof.
  unfold channel_bytes. cbn [type bits chain_index]. f_equal.
  destruct t.
  - f_equal. rewrite (u8_lor _ (b mod 256)). fold (u8 b).
    by rewrite u8_u8, <- u8_lor.
  - f_equal. fold (u8 b). apply u8_u8.
  - unfold be16. change 65536%N with (2 ^ 16)%N.
    by rewrite !land_mod_pow2.
Qed.

(** X13.  Bits above the width of the variant are dropped silently: for
    a single id or an 8-bit mask only the low byte of [bits] reaches the
    buffer, for a 16-bit mask only the low two bytes, and the call
    behaves as on the reduced value. *)
Theorem lor_write_channel_truncates t b i ptr st :
  lor_write_channel (Channel t b i) ptr st =
  lor_write_channel
    (Channel t (b mod match t with
                      | LOR_CHANNEL_MASK16 => 65536
                      | _ => 256
                      end) i) ptr st.
Proof.
  rewrite !(lor_write_channel_writes _ ptr st).
  by rewrite channel_bytes_truncates.
Qed.

(** X14.  The size of every message, by entry point: 3 for the
    heartbeat, 2 for a unit action, 1 for a brightness, 2 for a
    duration, 1 to 3 for a channel, 3 to 5 for a channel action, 4 to 6
    for set-brightness, 7 to 9 for a fade and 9 to 11 for a fade with a
    foreground action. *)
Theorem run_count_by_entry_point c ptr st n st' :
  run c ptr st = Some (n, st') →
  match c with
  | Heartbeat => n = 3
  | UnitAction _ _ => n = 2
  | Brightness _ | Brightnessf _ _ => n = 1
  | Duration _ | Durationf _ => n = 2
  | ChannelRef _ => 1 ≤ n ≤ 3
  | ChannelAction _ _ _ => 3 ≤ n ≤ 5
  | ChannelSetBrightness _ _ _ => 4 ≤ n ≤ 6
  | ChannelFade _ _ _ _ _ => 7 ≤ n ≤ 9
  | ChannelFadeWith _ _ _ _ _ _ => 9 ≤ n ≤ 11
  end.
Proof.
  intros (-> & _)%run_region.
  destruct c; cbn [wire]; rewrite ?length_app; cbn [length be16];
    try done;
    match goal with
    | |- context [channel_bytes ?ch] =>
        pose proof (channel_bytes_length_le ch); lia
    end.
Qed.

End Io.


(** ** The claims on concrete calls *)

Import Sample.

(** C3 fails as stated: the call said to return 13 returns 11. *)
Lemma fade_with_chained16_returns_11 :
  ∃ st',
    lor_write_channel_fade_with
      0x01 LOR_ACTION_CHANNEL_ON chained16 128 255 0x0102 0 (blank 13)
    = Some (11, st') ∧
    11 ≠ 13.
Proof. eexists. split; [vm_compute; reflexivity | lia]. Qed.

(** C10 fails as stated: for a single id without chain index
    [lor_write_channel] returns 1 and [lor_write_channel_fade] returns
    7, which is 6 + 1 and not 7 + 1. *)
Lemma channel_fade_overhead_is_not_7 :
  ∃ C n st1 st2,
    lor_write_channel single7 0 (blank 16) = Some (C, st1) ∧
    lor_write_channel_fade 0x01 single7 128 255 0x0102 0 (blank 16)
    = Some (n, st2) ∧
    n ≠ 7 + C.
Proof.
  eexists _, _, _, _.
  split; [vm_compute; reflexivity|].
  split; [vm_compute; reflexivity | lia].
Qed.

Lemma lor_write_channel_encoding_witness :
  valid_channel chained16 ∧
  ∃ st',
    lor_write_channel chained16 0 (blank 3) = Some (3, st') ∧
    region 0 3 st' = [0x02; 0x12; 0x34]%N ∧
    mem st' !! 0 = Some 0x02%N.
Proof.
  assert (valid_channel chained16) as Hvalid by (split; reflexivity).
  split; [exact Hvalid|].
  destruct (lor_write_channel_encoding chained16 0 (blank 3))
    as [Hsome Hinv].
  destruct Hsome as [[n st'] Hrun]; [cbn; lia|].
  destruct (Hinv n st' Hrun) as (-> & _ & Hbytes).
  destruct (Hbytes Hvalid) as [Hreg Hfirst]; [reflexivity|].
  exists st'. split; [exact Hrun|]. split; [exact Hreg|].
  apply Hfirst. reflexivity.
Defined.

Lemma lor_write_channel_fade_with_layout_witness :
  ∃ st',
    lor_write_channel_fade_with
      0x01 LOR_ACTION_CHANNEL_ON chained16 128 255 0x0102 0 (blank 11)
    = Some (11, st') ∧
    region 0 11 st' =
      [0x01; 0x11; 0x02; 0x12; 0x34; 0x81; 0x14; 128; 255; 0x01; 0x02]%N.
Proof.
  destruct (lor_write_channel_fade_with_layout
              0x01 LOR_ACTION_CHANNEL_ON chained16 128 255 0x0102 0 (blank 11))
    as [Hsome Hinv]; [reflexivity..|].
  destruct Hsome as [[n st'] Hrun]; [cbn; lia|].
  destruct (Hinv n st' Hrun) as (k & st1 & Hchannel & -> & Hreg).
  vm_compute in Hchannel. injection Hchannel as <- <-.
  exists st'. split; [exact Hrun | exact Hreg].
Defined.

Lemma composer_maximum_is_11_witness :
  ∃ st',
    lor_write_channel_fade_with
      0x01 LOR_ACTION_CHANNEL_ON chained16 128 255 0x0102 0 (blank 11)
    = Some (11, st').
Proof.
  destruct (composer_maximum_is_11
              0x01 LOR_ACTION_CHANNEL_ON chained16 128 255 0x0102 0 (blank 11))
    as [Hmax _]; [reflexivity | discriminate | cbn; lia | exact Hmax].
Defined.

Lemma composer_count_le_13_witness :
  is_Some (run (ChannelFade 0x01 chained16 128 255 0x0102) 0 (blank 13)) ∧
  ∀ n st',
    run (ChannelFade 0x01 chained16 128 255 0x0102) 0 (blank 13)
    = Some (n, st') →
    n ≤ 13 ∧ length (stored_since (blank 13) st') = n.
Proof.
  destruct (composer_count_le_13
              (ChannelFade 0x01 chained16 128 255 0x0102) 0 (blank 13))
    as [Hsome Hinv]; [reflexivity|].
  split; [apply Hsome; cbn; lia | exact Hinv].
Defined.

Lemma lor_write_duration_big_endian_witness :
  is_u16 0x0102 ∧
  ∃ st',
    lor_write_duration 0x0102 0 (blank 2) = Some (2, st') ∧
    region 0 2 st' = [0x01; 0x02]%N.
Proof.
  assert (is_u16 0x0102) as Hdur by reflexivity.
  split; [exact Hdur|].
  destruct (lor_write_duration_big_endian 0x0102 0 (blank 2) Hdur)
    as (Hsome & Hinv & Hexample).
  destruct Hsome as [[n st'] Hrun]; [cbn; lia|].
  destruct (Hinv n st' Hrun) as (-> & _).
  exists st'. split; [exact Hrun | exact (Hexample st' Hrun)].
Defined.

Lemma write_frame_witness :
  ∃ st',
    run (UnitAction 0x01 0x41) 4 (blank 16) = Some (2, st') ∧
    stored_since (blank 16) st' = [4; 5] ∧
    mem st' !! 6 = Some 0%N.
Proof.
  destruct (write_frame (UnitAction 0x01 0x41) 4 (blank 16))
    as [Hsome Hinv].
  destruct Hsome as [[n st'] Hrun]; [cbn; lia|].
  destruct (Hinv n st' Hrun) as (Hstores & _ & _ & Hframe & _).
  assert (n = 2) as -> by (vm_compute in Hrun; congruence).
  exists st'. split; [exact Hrun|]. split; [exact Hstores|].
  rewrite Hframe by lia. reflexivity.
Defined.

Lemma lor_write_unit_action_layout_witness :
  ∃ st',
    lor_write_unit_action 0x01 0x41 0 (blank 2) = Some (2, st') ∧
    region 0 2 st' = [0x01; 0x41]%N ∧
    stored_since (blank 2) st' = [0; 1].
Proof.
  apply (lor_write_unit_action_layout 0x01 0x41 0 (blank 2));
    [reflexivity | reflexivity | cbn; lia].
Defined.

Lemma composer_deterministic_witness :
  outcome (run (ChannelSetBrightness 0x01 single7 200) 0) 0 (blank 8) =
  outcome (run (ChannelSetBrightness 0x01 single7 200) 0) 0
    (Buffer (replicate 8 0xAA%N) [3]).
Proof.
  apply (composer_deterministic
           (ChannelSetBrightness 0x01 single7 200) 0
           (blank 8) (Buffer (replicate 8 0xAA%N) [3]));
    reflexivity.
Defined.

Lemma write_ignores_buffer_witness :
  ∃ n st1' st2',
    run (ChannelRef chained16) 1 (blank 12) = Some (n, st1') ∧
    run (ChannelRef chained16) 1 (Buffer [0xAA; 0xBB; 0xCC; 0xDD]%N [7])
    = Some (n, st2') ∧
    region 1 n st1' = region 1 n st2' ∧
    mem st2' !! 0 = Some 0xAA%N.
Proof.
  destruct (write_ignores_buffer
              (ChannelRef chained16) 1 (blank 12)
              (Buffer [0xAA; 0xBB; 0xCC; 0xDD]%N [7]))
    as [Hsome Hsame].
  destruct Hsome as [[n1 st1'] Hrun1]; [cbn; lia|].
  destruct (run (ChannelRef chained16) 1
              (Buffer [0xAA; 0xBB; 0xCC; 0xDD]%N [7]))
    as [[n2 st2']|] eqn:Hrun2; [|vm_compute in Hrun2; discriminate].
  destruct (Hsame n1 st1' n2 st2' Hrun1 eq_refl)
    as (<- & _ & Hreg & _ & _ & _ & Hkept & _).
  exists n1, st1', st2'. split; [exact Hrun1|]. split; [reflexivity|].
  split; [exact Hreg|]. rewrite Hkept by lia. reflexivity.
Defined.

Lemma composer_count_overhead_witness :
  ∃ C,
    fst <$> lor_write_channel single7 0 (blank 3) = Some C ∧
    fst <$> lor_write_channel_action 0x01 LOR_ACTION_CHANNEL_ON single7
              0 (blank 11) = Some (2 + C) ∧
    fst <$> lor_write_channel_set_brightness 0x01 single7 255
              0 (blank 11) = Some (3 + C) ∧
    fst <$> lor_write_channel_fade 0x01 single7 128 255 0x0102
              0 (blank 11) = Some (6 + C) ∧
    fst <$> lor_write_channel_fade_with
              0x01 LOR_ACTION_CHANNEL_ON single7 128 255 0x0102
              0 (blank 11) = Some (8 + C) ∧
    C = 1.
Proof.
  apply (composer_count_overhead
           0x01 LOR_ACTION_CHANNEL_ON single7 128 255 0x0102
           0 (blank 11) 0 (blank 3)); cbn; lia.
Defined.

(** ** The further properties on concrete calls *)

Lemma lor_write_heartbeat_layout_witness :
  ∃ st',
    lor_write_heartbeat 2 (blank 5) = Some (3, st') ∧
    region 2 3 st' = [0xFF; 0x81; 0x56]%N ∧
    stored_since (blank 5) st' = [2; 3; 4].
Proof.
  assert (2 + 3 ≤ length (mem (blank 5))) as Hroom by (cbn; lia).
  exact (lor_write_heartbeat_layout 2 (blank 5)
           eq_refl eq_refl eq_refl Hroom).
Defined.

Lemma lor_write_brightnessf_layout_witness :
  ∃ st',
    lor_write_brightnessf 3%N (λ x, (x * 50)%N) 0 (blank 1) = Some (1, st') ∧
    lor_write_brightness 150 0 (blank 1) = Some (1, st') ∧
    region 0 1 st' = [150%N] ∧
    stored_since (blank 1) st' = [0].
Proof.
  assert (0 + 1 ≤ length (mem (blank 1))) as Hroom by (cbn; lia).
  exact (lor_write_brightnessf_layout 3%N (λ x, (x * 50)%N) 0 (blank 1)
           eq_refl Hroom).
Defined.

Lemma lor_write_durationf_layout_witness :
  ∃ st' high low,
    lor_write_durationf 0x0102%N 0 (blank 2) = Some (2, st') ∧
    region 0 2 st' = [high; low] ∧
    is_u8 high ∧ is_u8 low ∧
    (high * 256 + low)%N = 0x0102%N.
Proof.
  assert (0 + 2 ≤ length (mem (blank 2))) as Hroom by (cbn; lia).
  exact (lor_write_durationf_layout 0x0102%N 0 (blank 2) eq_refl Hroom).
Defined.

Lemma lor_write_channel_action_layout_witness :
  ∃ st',
    lor_write_channel_action 0x01 LOR_ACTION_CHANNEL_ON chained16 0 (blank 5)
    = Some (5, st') ∧
    region 0 5 st' = [0x01; 0x11; 0x02; 0x12; 0x34]%N.
Proof.
  destruct (lor_write_channel_action_layout
              0x01 LOR_ACTION_CHANNEL_ON chained16 0 (blank 5))
    as [Hsome Hinv]; [reflexivity..|].
  destruct Hsome as [[n st'] Hrun]; [cbn; lia|].
  destruct (Hinv n st' Hrun) as (k & st1 & Hchannel & -> & Hreg).
  vm_compute in Hchannel. injection Hchannel as <- <-.
  exists st'. split; [exact Hrun | exact Hreg].
Defined.

Lemma lor_write_channel_set_brightness_layout_witness :
  ∃ st',
    lor_write_channel_set_brightness 0x01 single7 200 0 (blank 4)
    = Some (4, st') ∧
    region 0 4 st' = [0x01; 0x03; 200; 0x87]%N.
Proof.
  destruct (lor_write_channel_set_brightness_layout
              0x01 single7 200 0 (blank 4))
    as [_ Hinv]; [reflexivity..|].
  destruct (lor_write_channel_set_brightness 0x01 single7 200 0 (blank 4))
    as [[n st']|] eqn:Hrun; [|vm_compute in Hrun; discriminate].
  destruct (Hinv n st' eq_refl) as (k & st1 & Hchannel & -> & Hreg).
  vm_compute in Hchannel. injection Hchannel as <- <-.
  exists st'. split; [reflexivity | exact Hreg].
Defined.

Lemma lor_write_channel_fade_layout_witness :
  ∃ st',
    lor_write_channel_fade 0x01 chained16 128 255 0x0102 0 (blank 9)
    = Some (9, st') ∧
    region 0 9 st' =
      [0x01; 0x14; 128; 255; 0x01; 0x02; 0x02; 0x12; 0x34]%N.
Proof.
  destruct (lor_write_channel_fade_layout
              0x01 chained16 128 255 0x0102 0 (blank 9))
    as [Hsome Hinv]; [reflexivity..|].
  destruct Hsome as [[n st'] Hrun]; [cbn; lia|].
  destruct (Hinv n st' Hrun) as (k & st1 & Hchannel & -> & Hreg).
  vm_compute in Hchannel. injection Hchannel as <- <-.
  exists st'. split; [exact Hrun | exact Hreg].
Defined.

Lemma lor_write_channel_fade_with_prefix_witness :
  ∃ st' k sta,
    lor_write_channel_fade_with
      0x01 LOR_ACTION_CHANNEL_ON single7 128 255 0x0102 0 (blank 9)
    = Some (k + 6, st') ∧
    lor_write_channel_action 0x01 LOR_ACTION_CHANNEL_ON single7 0 (blank 9)
    = Some (k, sta) ∧
    region 0 k st' = region 0 k sta ∧
    mem st' !! (0 + k) = Some 0x81%N.
Proof.
  destruct (lor_write_channel_fade_with
              0x01 LOR_ACTION_CHANNEL_ON single7 128 255 0x0102 0 (blank 9))
    as [[n st']|] eqn:Hrun; [|vm_compute in Hrun; discriminate].
  destruct (lor_write_channel_fade_with_prefix
              0x01 LOR_ACTION_CHANNEL_ON single7 128 255 0x0102 0 (blank 9)
              n st' Hrun)
    as (k & sta & Haction & -> & Hreg & Hand).
  exists st', k, sta. split; [reflexivity|]. split; [exact Haction|].
  split; [exact Hreg | exact Hand].
Defined.

Lemma run_needs_exactly_its_count_witness :
  is_Some (run (UnitAction 0x01 0x41) 3 (blank 5)) ∧
  ¬ is_Some (run (UnitAction 0x01 0x41) 4 (blank 5)).
Proof.
  assert (run (UnitAction 0x01 0x41) 0 (blank 2)
          = Some (2, Buffer [0x01; 0x41]%N [0; 1])) as Hrun by reflexivity.
  split.
  - apply (run_needs_exactly_its_count _ _ _ _ _ 3 (blank 5) Hrun).
    cbn. lia.
  - intros Hsome.
    apply (run_needs_exactly_its_count _ _ _ _ _ 4 (blank 5) Hrun) in Hsome.
    cbn in Hsome. lia.
Defined.

Lemma run_position_independent_witness :
  region 0 3 (Buffer [0x02; 0x12; 0x34]%N [0; 1; 2]) =
  region 4 3
    (Buffer [0xAA; 0xAA; 0xAA; 0xAA; 0x02; 0x12; 0x34; 0xAA]%N [4; 5; 6]).
Proof.
  apply (run_position_independent
           (ChannelRef chained16)
           0 (blank 3) 3 (Buffer [0x02; 0x12; 0x34]%N [0; 1; 2])
           4 (Buffer (replicate 8 0xAA%N) []) 3
           (Buffer [0xAA; 0xAA; 0xAA; 0xAA; 0x02; 0x12; 0x34; 0xAA]%N
              [4; 5; 6]));
    reflexivity.
Defined.

Lemma run_chain_concatenates_witness :
  region 0 5 (Buffer [0xFF; 0x81; 0x56; 0x01; 0x41]%N [0; 1; 2; 3; 4]) =
  region 0 3 (Buffer [0xFF; 0x81; 0x56]%N [0; 1; 2]) ++
  region 0 2 (Buffer [0x01; 0x41]%N [0; 1]).
Proof.
  apply (run_chain_concatenates
           Heartbeat (UnitAction 0x01 0x41)
           0 (blank 5) 3 (Buffer [0xFF; 0x81; 0x56; 0; 0]%N [0; 1; 2])
           2 (Buffer [0xFF; 0x81; 0x56; 0x01; 0x41]%N [0; 1; 2; 3; 4])
           0 (blank 3) 3 (Buffer [0xFF; 0x81; 0x56]%N [0; 1; 2])
           0 (blank 2) 2 (Buffer [0x01; 0x41]%N [0; 1]));
    reflexivity.
Defined.

Lemma lor_write_channel_injective_witness :
  single7 = Channel LOR_CHANNEL_ID 7 0.
Proof.
  apply (lor_write_channel_injective
           single7 (Channel LOR_CHANNEL_ID 7 0)
           0 (blank 1) 1 (Buffer [0x87%N] [0])
           2 (blank 4) 1 (Buffer [0; 0; 0x87; 0]%N [2]));
    try reflexivity; try (split; reflexivity).
Defined.

Lemma run_count_by_entry_point_witness :
  7 ≤ 9 ≤ 9.
Proof.
  apply (run_count_by_entry_point
           (ChannelFade 0x01 chained16 128 255 0x0102) 0 (blank 9)
           9 (Buffer [0x01; 0x14; 128; 255; 0x01; 0x02; 0x02; 0x12; 0x34]%N
                [0; 1; 2; 3; 4; 5; 6; 7; 8])).
  reflexivity.
Defined.
